(** * The solver's host boundary (src/wasm/export_solver.cpp)

    A shallow embedding of the functions the boundary exports: the board
    codec ([boardFromArray], [arrayFromBoard]), the guarded move queries
    ([isValidMove], [makeMove]), heuristic name resolution
    ([resolveHeuristic]), the strategy factory ([makeStrategy]) and the
    reconfigurable [StrategyWrapper].

    Conventions.
    - [int] is the 32-bit signed integer of the wasm32 target, a [Z] in
      [int_min, int_max]; arithmetic that can leave the range goes through
      [wrap_int].
    - [board_t] is the unsigned 64-bit board word, a [Z] in [0, 2^64);
      arithmetic that can leave the range goes through [wrap_board].
    - [std::string] is [string] (a sequence of 8-bit characters).
    - [float] and [double] are IEEE 754 binary32 and binary64 values, as
      [spec_float] with the format's precision and exponent bound. *)

From Stdlib Require Import ZArith Lia Bool Ascii String.
From Stdlib Require Import Floats.SpecFloat.
From stdpp Require Import base list strings.

Local Open Scope Z_scope.

(** ** Machine integers *)

Definition int_min : Z := - 2 ^ 31.
Definition int_max : Z := 2 ^ 31 - 1.

(** Two's complement reduction to 32 bits. *)
Definition wrap_int (z : Z) : Z := (z + 2 ^ 31) mod 2 ^ 32 - 2 ^ 31.

(** [a * b] on [int].  The product is exact when it fits an [int].  A
    signed product that does not fit is undefined in C++: the value given
    here is the one of the wasm32 multiplication, modulo 2^32, and the
    statements about the factory use [int_mul] only where it is exact. *)
Definition int_mul (a b : Z) : Z := wrap_int (a * b).

(** Modelled from the spec: [board_t] (game.hpp, not among the sources) is
    the 64-bit board word.  Reduction to its 64 bits; also
    [static_cast<board_t>]. *)
Definition wrap_board (z : Z) : Z := z mod 2 ^ 64.

(** [x << n] on [board_t]. *)
Definition board_shl (x n : Z) : Z := wrap_board (Z.shiftl x n).

(** [std::max] on [int]: the second argument when the first is less. *)
Definition std_max (a b : Z) : Z := if a <? b then b else a.

(** ** Loops *)

(** [for (i = first; ...; ++i) s = body i s;] run for [count] rounds. *)
Fixpoint for_loop {St : Type} (count first : nat) (body : nat → St → St)
    (s : St) : St :=
  match count with
  | O => s
  | S count' => for_loop count' (S first) body (body first s)
  end.

(** ** Constants of the anonymous namespace *)

Definition kBoardTileCount : nat := 16.
Definition kTileBitWidth : Z := 4.
Definition kMaxExponent : Z := 15.

(** ** Strings *)

(** [std::tolower] in the "C" locale on an [unsigned char]: the 26 upper
    case letters move down by 32, every other character is kept. *)
Definition tolower (ch : ascii) : ascii :=
  let n := N_of_ascii ch in
  if (65 <=? n)%N && (n <=? 90)%N then ascii_of_N (n + 32) else ch.

Fixpoint toLowerCopy (value : string) : string :=
  match value with
  | EmptyString => EmptyString
  | String ch rest => String (tolower ch) (toLowerCopy rest)
  end.

(** ** Board codec *)

Definition clampExponent (value : Z) : Z :=
  if value <? 0 then 0
  else if value >? kMaxExponent then kMaxExponent
  else value.

(** The body of the loop of [boardFromArray].  The loop keeps [i] below
    [tiles.size()], so [tiles[i]] is read in range. *)
Definition encode_step (tiles : list Z) (i : nat) (board : Z) : Z :=
  let exponent := wrap_board (clampExponent (tiles !!! i)) in
  Z.lor board
    (board_shl (Z.land exponent kMaxExponent) (Z.of_nat i * kTileBitWidth)).

Definition boardFromArray (tiles : list Z) : Z :=
  let limit := Nat.min (length tiles) kBoardTileCount in
  for_loop limit 0 (encode_step tiles) 0.

(** The body of the loop of [arrayFromBoard]; the cast to [int] is
    [wrap_int]. *)
Definition decode_step (board : Z) (i : nat) (tiles : list Z) : list Z :=
  <[ i := wrap_int (Z.land (Z.shiftr board (Z.of_nat i * kTileBitWidth))
                           kMaxExponent) ]> tiles.

Definition arrayFromBoard (board : Z) : list Z :=
  for_loop kBoardTileCount 0 (decode_step board)
           (replicate kBoardTileCount 0).

(** ** Heuristics *)

(** Modelled from the spec: heuristics.hpp, which declares [heuristic_t] and
    the evaluators of namespace [heuristics], is not among the sources.  The
    boundary only selects among the eight evaluators it names, so a
    [heuristic_t] is the identity of the function it points to. *)
Module heuristics.
Inductive heuristic_t : Set :=
| score_heuristic
| merge_heuristic
| corner_heuristic
| strict_wall_heuristic
| wall_gap_heuristic
| full_wall_heuristic
| skewed_corner_heuristic
| monotonicity_heuristic.
End heuristics.
Export heuristics.

Definition resolveHeuristic (name : string) : heuristic_t :=
  let key := toLowerCopy name in
  if (key =? "score")%string then heuristics.score_heuristic
  else if (key =? "merge")%string then heuristics.merge_heuristic
  else if (key =? "corner")%string || (key =? "corner_bias")%string
       then heuristics.corner_heuristic
  else if (key =? "wall")%string || (key =? "strict_wall")%string
       then heuristics.strict_wall_heuristic
  else if (key =? "wall_gap")%string then heuristics.wall_gap_heuristic
  else if (key =? "full_wall")%string then heuristics.full_wall_heuristic
  else if (key =? "skewed_corner")%string
       then heuristics.skewed_corner_heuristic
  else if (key =? "monotonicity")%string
       then heuristics.monotonicity_heuristic
  else heuristics.corner_heuristic.

(** The keys [resolveHeuristic] compares against. *)
Definition heuristic_keys : list string :=
  ["score"; "merge"; "corner"; "corner_bias"; "wall"; "strict_wall";
   "wall_gap"; "full_wall"; "skewed_corner"; "monotonicity"]%string.

(** ** Floating point *)

Definition float_prec : Z := 24.
Definition float_emax : Z := 128.

(** [static_cast<float>] of a [double]: round to nearest even in binary32. *)
Definition float_of_double (d : spec_float) : spec_float :=
  match d with
  | S754_finite s m e => binary_round float_prec float_emax s m e
  | _ => d
  end.

(** [a > b]; false when either side is a NaN. *)
Definition float_gt (a b : spec_float) : bool := SFltb b a.

(** The literals [0.0f], [0.001f] and [0.0025]. *)
Definition float_0 : spec_float := S754_zero false.
Definition float_0_001 : spec_float := S754_finite false 8589935 (-33).
Definition double_0_0025 : spec_float :=
  S754_finite false 5764607523034235 (-61).
(** The [double] [-1.0]. *)
Definition double_minus_1 : spec_float :=
  S754_finite true 4503599627370496 (-52).

(** ** Strategies *)

(** Modelled from the spec: the five strategy classes (the headers under
    strategies/) are not among the sources.  A strategy object is recorded
    by its class and the arguments [makeStrategy] hands to its constructor,
    named as in the spec: ExpectimaxDepthStrategy(depth, heuristic),
    ExpectimaxProbabilityStrategy(probabilityThreshold, heuristic),
    MonteCarloPlayer(iterations),
    RandomTrialsStrategy(gamesPerMove, branchDepth, width), RandomPlayer. *)
Inductive Strategy : Type :=
| ExpectimaxDepthStrategy (depth : Z) (evaluator : heuristic_t)
| ExpectimaxProbabilityStrategy (prob : spec_float) (evaluator : heuristic_t)
| MonteCarloPlayer (iterations : Z)
| RandomTrialsStrategy (gamesPerMove branchDepth width : Z)
| RandomPlayer.

Definition makeStrategy (type : string) (evaluator : heuristic_t)
    (depth : Z) (probability : spec_float) (trials : Z) : Strategy :=
  let key := toLowerCopy type in
  if (key =? "expectimax-depth")%string || (key =? "expectimax")%string then
    let effectiveDepth := if depth <=? 0 then 4 else depth in
    ExpectimaxDepthStrategy effectiveDepth evaluator
  else if (key =? "expectimax-probability")%string then
    let prob := float_of_double probability in
    let prob := if negb (float_gt prob float_0) then float_0_001 else prob in
    ExpectimaxProbabilityStrategy prob evaluator
  else if (key =? "monte-carlo")%string then
    let iterations :=
      if trials >? 0 then trials else std_max 128 (int_mul depth 128) in
    MonteCarloPlayer iterations
  else if (key =? "random-trials")%string then
    let branchDepth := if depth >? 0 then depth else 3 in
    let gamesPerMove := if trials >? 0 then trials else 32 in
    RandomTrialsStrategy gamesPerMove branchDepth 2
  else if (key =? "random")%string then
    RandomPlayer
  else
    let fallbackDepth := if depth <=? 0 then 4 else depth in
    ExpectimaxDepthStrategy fallbackDepth evaluator.

(** ** Guarded move queries *)

(** [GameSimulator] is declared in game.hpp, which is not among the
    sources; the boundary calls its [make_move] on the process-wide instance
    [simulator()].  The instance is passed explicitly and its method, a
    function of the board and the direction, is a field. *)
Record GameSimulator : Type := {
  make_move : Z → Z → Z
}.

Definition isValidMove (sim : GameSimulator) (board direction : Z) : bool :=
  if (direction <? 0) || (direction >? 3) then false
  else negb (board =? make_move sim board direction).

Definition makeMove (sim : GameSimulator) (board direction : Z) : Z :=
  if (direction <? 0) || (direction >? 3) then board
  else make_move sim board direction.

(** ** StrategyWrapper *)

Record StrategyWrapper : Type := {
  strategy_ : option Strategy;      (* unique_ptr: [None] is the null pointer *)
  evaluator_ : heuristic_t;
  strategy_type_ : string;
  heuristic_name_ : string;
  depth_ : Z;
  probability_ : spec_float;
  trials_ : Z
}.

Module Wrapper.

Definition configure (type heuristic : string) (depth : Z)
    (probability : spec_float) (self : StrategyWrapper) : StrategyWrapper :=
  let strategy_type' := toLowerCopy type in
  let heuristic_name' := toLowerCopy heuristic in
  let evaluator' := resolveHeuristic heuristic_name' in
  {| strategy_ := Some (makeStrategy strategy_type' evaluator' depth
                                     probability (trials_ self));
     evaluator_ := evaluator';
     strategy_type_ := strategy_type';
     heuristic_name_ := heuristic_name';
     depth_ := depth;
     probability_ := probability;
     trials_ := trials_ self |}.

(** The constructor: the member initialisers, then [configure] on the
    two lower-cased members. *)
Definition new (type heuristic : string) (depth : Z)
    (probability : spec_float) : StrategyWrapper :=
  let self :=
    {| strategy_ := None;
       evaluator_ := heuristics.corner_heuristic;
       strategy_type_ := toLowerCopy type;
       heuristic_name_ := toLowerCopy heuristic;
       depth_ := 4;
       probability_ := double_0_0025;
       trials_ := 256 |} in
  configure (strategy_type_ self) (heuristic_name_ self) depth probability
            self.

Definition setTrials (trials : Z) (self : StrategyWrapper)
    : StrategyWrapper :=
  {| strategy_ := Some (makeStrategy (strategy_type_ self) (evaluator_ self)
                                     (depth_ self) (probability_ self)
                                     trials);
     evaluator_ := evaluator_ self;
     strategy_type_ := strategy_type_ self;
     heuristic_name_ := heuristic_name_ self;
     depth_ := depth_ self;
     probability_ := probability_ self;
     trials_ := trials |}.

Definition ensureStrategy (self : StrategyWrapper) : StrategyWrapper :=
  match strategy_ self with
  | Some _ => self
  | None =>
      {| strategy_ := Some (makeStrategy (strategy_type_ self)
                                         (evaluator_ self) (depth_ self)
                                         (probability_ self) (trials_ self));
         evaluator_ := evaluator_ self;
         strategy_type_ := strategy_type_ self;
         heuristic_name_ := heuristic_name_ self;
         depth_ := depth_ self;
         probability_ := probability_ self;
         trials_ := trials_ self |}
  end.

End Wrapper.

(** ** Vocabulary of the statements *)

(** The 4-bit field of cell [j]. *)
Definition nibble (board : Z) (j : nat) : Z :=
  Z.land (Z.shiftr board (Z.of_nat j * kTileBitWidth)) kMaxExponent.

(** The first sixteen values of [v], completed with zeros. *)
Definition pad16 (v : list Z) : list Z :=
  take 16 v ++ replicate (16 - length v) 0.

(** ** Largest tile *)

(** [std::min] on [int]: the second argument when it is less than the
    first. *)
Definition std_min (a b : Z) : Z := if b <? a then b else a.

(** [a << n] on [int]. *)
Definition int_shl (a n : Z) : Z := wrap_int (Z.shiftl a n).

(** [get_max_tile] is declared in game.hpp, which is not among the sources;
    it is a parameter, a function from the board to an [int]. *)
Definition getMaxTile (get_max_tile : Z → Z) (board : Z) : Z :=
  let maxExponent := get_max_tile board in
  if maxExponent <=? 0 then 0
  else
    let capped := std_min maxExponent kMaxExponent in
    int_shl 1 capped.

(** ** Further vocabulary *)

(** The lower-case form of a name, written from the alphabet and not from
    [tolower]: each of the 26 capital letters becomes its small letter and
    every other character stays.  Case-insensitivity is stated against it. *)
Definition lowercase_letter (ch : ascii) : ascii :=
  match ch with
  | "A" => "a" | "B" => "b" | "C" => "c" | "D" => "d"
  | "E" => "e" | "F" => "f" | "G" => "g" | "H" => "h"
  | "I" => "i" | "J" => "j" | "K" => "k" | "L" => "l"
  | "M" => "m" | "N" => "n" | "O" => "o" | "P" => "p"
  | "Q" => "q" | "R" => "r" | "S" => "s" | "T" => "t"
  | "U" => "u" | "V" => "v" | "W" => "w" | "X" => "x"
  | "Y" => "y" | "Z" => "z"
  | _ => ch
  end%char.

Fixpoint lowercase (name : string) : string :=
  match name with
  | EmptyString => EmptyString
  | String ch rest => String (lowercase_letter ch) (lowercase rest)
  end.

(** The 26 upper case letters of the "C" locale. *)
Definition isupper (ch : ascii) : bool :=
  let n := N_of_ascii ch in (65 <=? n)%N && (n <=? 90)%N.

Fixpoint has_upper (value : string) : bool :=
  match value with
  | EmptyString => false
  | String ch rest => isupper ch || has_upper rest
  end.

(** The class of a strategy object. *)
Inductive StrategyKind : Set :=
| ExpectimaxDepth
| ExpectimaxProbability
| MonteCarlo
| RandomTrials
| Random.

Definition kind_of (s : Strategy) : StrategyKind :=
  match s with
  | ExpectimaxDepthStrategy _ _ => ExpectimaxDepth
  | ExpectimaxProbabilityStrategy _ _ => ExpectimaxProbability
  | MonteCarloPlayer _ => MonteCarlo
  | RandomTrialsStrategy _ _ _ => RandomTrials
  | RandomPlayer => Random
  end.

(** The class the factory builds for a lower-cased type key. *)
Definition kind_of_key (key : string) : StrategyKind :=
  if decide (key = "expectimax-probability"%string) then ExpectimaxProbability
  else if decide (key = "monte-carlo"%string) then MonteCarlo
  else if decide (key = "random-trials"%string) then RandomTrials
  else if decide (key = "random"%string) then Random
  else ExpectimaxDepth.

(** Every numeric parameter of the strategy is positive, and each integer
    one is an [int]. *)
Definition positive_parameters (s : Strategy) : Prop :=
  match s with
  | ExpectimaxDepthStrategy depth _ => 0 < depth ≤ int_max
  | ExpectimaxProbabilityStrategy prob _ => float_gt prob float_0 = true
  | MonteCarloPlayer iterations => 0 < iterations ≤ int_max
  | RandomTrialsStrategy gamesPerMove branchDepth width =>
      0 < gamesPerMove ≤ int_max ∧ 0 < branchDepth ≤ int_max ∧ width = 2
  | RandomPlayer => True
  end.

(** The wrapper's members agree with one another: the strategy is the one
    the factory builds from the stored members, the evaluator is the one
    the stored heuristic name resolves to, and both stored names are in
    lower case. *)
Definition coherent (self : StrategyWrapper) : Prop :=
  strategy_ self
  = Some (makeStrategy (strategy_type_ self) (evaluator_ self) (depth_ self)
                       (probability_ self) (trials_ self)) ∧
  evaluator_ self = resolveHeuristic (heuristic_name_ self) ∧
  toLowerCopy (strategy_type_ self) = strategy_type_ self ∧
  toLowerCopy (heuristic_name_ self) = heuristic_name_ self.

(** * Properties *)

(** ** Running the definitions *)

Example boardFromArray_sample :
  boardFromArray [1; 2; 3; -4; 99; 0; 7] = 0x70F0321.
Proof. reflexivity. Qed.

Example arrayFromBoard_sample :
  arrayFromBoard 0x70F0321 = [1; 2; 3; 0; 15; 0; 7; 0; 0; 0; 0; 0; 0; 0; 0; 0].
Proof. reflexivity. Qed.

(** ** Integer ranges *)

Lemma wrap_board_small z : 0 ≤ z < 2 ^ 64 → wrap_board z = z.
Proof. intros Hz. unfold wrap_board. now apply Z.mod_small. Qed.

Lemma wrap_int_small z : int_min ≤ z ≤ int_max → wrap_int z = z.
Proof.
  unfold int_min, int_max, wrap_int.
  change (2 ^ 31) with 2147483648. change (2 ^ 32) with 4294967296.
  intros Hz. rewrite Z.mod_small; lia.
Qed.

Lemma clampExponent_range value : 0 ≤ clampExponent value ≤ 15.
Proof.
  unfold clampExponent, kMaxExponent.
  destruct (Z.ltb_spec value 0); [lia|].
  destruct (Z.gtb_spec value 15); lia.
Qed.

Lemma clampExponent_id value : 0 ≤ value ≤ 15 → clampExponent value = value.
Proof.
  unfold clampExponent, kMaxExponent. intros Hv.
  destruct (Z.ltb_spec value 0); [lia|].
  destruct (Z.gtb_spec value 15); lia.
Qed.

Lemma clampExponent_idem value :
  clampExponent (clampExponent value) = clampExponent value.
Proof. apply clampExponent_id, clampExponent_range. Qed.

(** ** Nibbles of a board *)

Lemma nibble_range board j : 0 ≤ nibble board j ≤ 15.
Proof.
  unfold nibble. change kMaxExponent with (Z.ones 4).
  rewrite Z.land_ones by lia. change (2 ^ 4) with 16.
  pose proof (Z.mod_pos_bound (Z.shiftr board (Z.of_nat j * kTileBitWidth))
                16 ltac:(lia)). lia.
Qed.

Lemma nibble_testbit board j n :
  Z.testbit (nibble board j) n =
  Z.testbit board (n + Z.of_nat j * 4) && (0 <=? n) && (n <? 4).
Proof.
  unfold nibble, kMaxExponent, kTileBitWidth. change 15 with (Z.ones 4).
  destruct (Z.leb_spec 0 n) as [Hn|Hn].
  - rewrite Z.land_spec, Z.shiftr_spec by lia.
    rewrite Z.testbit_ones_nonneg by lia.
    destruct (Z.ltb_spec n 4); now rewrite ?andb_true_r, ?andb_false_r.
  - rewrite Z.testbit_neg_r by lia. now rewrite andb_false_r.
Qed.

Lemma nibble_0 j : nibble 0 j = 0.
Proof. unfold nibble. now rewrite Z.shiftr_0_l. Qed.

Lemma nibble_lor a b j : nibble (Z.lor a b) j = Z.lor (nibble a j) (nibble b j).
Proof.
  unfold nibble. now rewrite Z.shiftr_lor, Z.land_lor_distr_l.
Qed.

Lemma small_testbit x n : 0 ≤ x ≤ 15 → 4 ≤ n → Z.testbit x n = false.
Proof.
  intros Hx Hn. destruct (Z.eq_dec x 0) as [->|Hx0]; [apply Z.bits_0|].
  apply Z.bits_above_log2; [lia|].
  assert (Z.log2 x < 4); [|lia].
  apply Z.log2_lt_pow2; lia.
Qed.

Lemma nibble_shiftl x i j :
  0 ≤ x ≤ 15 →
  nibble (Z.shiftl x (Z.of_nat i * 4)) j = if decide (i = j) then x else 0.
Proof.
  intros Hx. apply Z.bits_inj'. intros n Hn.
  rewrite nibble_testbit, Z.shiftl_spec by lia.
  destruct (Z.ltb_spec n 4) as [Hn4|Hn4].
  - destruct (Z.leb_spec 0 n); [|lia]. rewrite !andb_true_r.
    destruct (decide (i = j)) as [->|Hij].
    + f_equal. lia.
    + rewrite Z.bits_0.
      destruct (Z.lt_ge_cases (n + Z.of_nat j * 4 - Z.of_nat i * 4) 0).
      * now apply Z.testbit_neg_r.
      * apply small_testbit; [done|lia].
  - rewrite andb_false_r.
    destruct (decide (i = j)); [|now rewrite Z.bits_0].
    symmetry. now apply small_testbit.
Qed.

(** A board is determined by its sixteen nibbles. *)
Lemma board_ext a b :
  0 ≤ a < 2 ^ 64 → 0 ≤ b < 2 ^ 64 →
  (∀ j, (j < 16)%nat → nibble a j = nibble b j) →
  a = b.
Proof.
  intros Ha Hb Hnib. apply Z.bits_inj'. intros n Hn.
  destruct (Z.lt_ge_cases n 64) as [Hlt|Hge].
  - specialize (Hnib (Z.to_nat (n / 4))).
    assert (Hj : (Z.to_nat (n / 4) < 16)%nat).
    { apply Nat2Z.inj_lt. rewrite Z2Nat.id by (apply Z.div_pos; lia).
      apply Z.div_lt_upper_bound; lia. }
    apply (f_equal (fun z => Z.testbit z (n mod 4))) in Hnib; [|done].
    rewrite !nibble_testbit in Hnib.
    rewrite Z2Nat.id in Hnib by (apply Z.div_pos; lia).
    pose proof (Z.mod_pos_bound n 4 ltac:(lia)) as Hm.
    replace (n mod 4 + n / 4 * 4) with n in Hnib
      by (rewrite (Z.div_mod n 4) at 1; lia).
    destruct (Z.leb_spec 0 (n mod 4)); [|lia].
    destruct (Z.ltb_spec (n mod 4) 4); [|lia].
    now rewrite !andb_true_r in Hnib.
  - rewrite <- (Z.mod_small a (2 ^ 64)), <- (Z.mod_small b (2 ^ 64)) by done.
    now rewrite !Z.mod_pow2_bits_high by lia.
Qed.

(** ** The two loops *)

Lemma for_loop_succ {St : Type} count first (body : nat → St → St) s :
  for_loop (S count) first body s =
  body (first + count)%nat (for_loop count first body s).
Proof.
  revert first s. induction count as [|count IH]; intros first s.
  - cbn. now rewrite Nat.add_0_r.
  - change (for_loop (S (S count)) first body s)
      with (for_loop (S count) (S first) body (body first s)).
    rewrite IH. cbn [for_loop]. f_equal. lia.
Qed.

Lemma shiftl_field_range c i :
  0 ≤ c ≤ 15 → (i < 16)%nat → 0 ≤ Z.shiftl c (Z.of_nat i * 4) < 2 ^ 64.
Proof.
  intros Hc Hi. rewrite Z.shiftl_mul_pow2 by lia.
  assert (0 < 2 ^ (Z.of_nat i * 4)) by (apply Z.pow_pos_nonneg; lia).
  assert (2 ^ (Z.of_nat i * 4) ≤ 2 ^ 60) by (apply Z.pow_le_mono_r; lia).
  change (2 ^ 60) with 1152921504606846976 in *.
  change (2 ^ 64) with 18446744073709551616. nia.
Qed.

Lemma lt_pow2_log2 x : 0 ≤ x → x < 2 ^ 64 ↔ Z.log2 x < 64.
Proof.
  intros Hx. destruct (Z.eq_dec x 0) as [->|Hne].
  - change (Z.log2 0) with 0. change (2 ^ 64) with 18446744073709551616. lia.
  - apply Z.log2_lt_pow2. lia.
Qed.

Lemma lor_range a b :
  0 ≤ a < 2 ^ 64 → 0 ≤ b < 2 ^ 64 → 0 ≤ Z.lor a b < 2 ^ 64.
Proof.
  intros [Ha0 Ha] [Hb0 Hb].
  assert (0 ≤ Z.lor a b) as Hab0 by (apply Z.lor_nonneg; lia).
  split; [done|].
  apply lt_pow2_log2 in Ha, Hb; [|done..].
  apply lt_pow2_log2; [done|]. rewrite Z.log2_lor by done. lia.
Qed.

Lemma encode_step_eq tiles i board :
  (i < 16)%nat →
  encode_step tiles i board =
  Z.lor board (Z.shiftl (clampExponent (tiles !!! i)) (Z.of_nat i * 4)).
Proof.
  intros Hi. unfold encode_step, board_shl, kTileBitWidth.
  pose proof (clampExponent_range (tiles !!! i)) as Hc.
  rewrite (wrap_board_small (clampExponent _))
    by (change (2 ^ 64) with 18446744073709551616; lia).
  change kMaxExponent with (Z.ones 4).
  rewrite Z.land_ones, Z.mod_small by (change (2 ^ 4) with 16; lia).
  now rewrite wrap_board_small by (apply shiftl_field_range; lia).
Qed.

Lemma encode_loop tiles count :
  (count ≤ 16)%nat →
  0 ≤ for_loop count 0 (encode_step tiles) 0 < 2 ^ 64 ∧
  ∀ j, nibble (for_loop count 0 (encode_step tiles) 0) j =
       if decide (j < count)%nat then clampExponent (tiles !!! j) else 0.
Proof.
  induction count as [|count IH]; intros Hcount.
  - cbn [for_loop]. split; [done|]. intros j. rewrite nibble_0.
    destruct (decide (j < 0)%nat); [lia|done].
  - destruct IH as [Hrange Hnib]; [lia|].
    rewrite for_loop_succ, Nat.add_0_l, encode_step_eq by lia.
    pose proof (clampExponent_range (tiles !!! count)) as Hc.
    split.
    + apply lor_range; [done|]. apply shiftl_field_range; lia.
    + intros j. rewrite nibble_lor, Hnib, nibble_shiftl by done.
      destruct (decide (j < count)%nat), (decide (count = j)),
        (decide (j < S count)%nat); try lia;
        subst; now rewrite ?Z.lor_0_r, ?Z.lor_0_l.
Qed.

Lemma boardFromArray_range tiles : 0 ≤ boardFromArray tiles < 2 ^ 64.
Proof.
  apply (encode_loop tiles (Nat.min (length tiles) kBoardTileCount)).
  unfold kBoardTileCount. lia.
Qed.

(** Cell [j] of an encoded board holds the clamped [j]-th input, or nothing
    when the input has no [j]-th value. *)
Lemma nibble_boardFromArray tiles j :
  (j < 16)%nat →
  nibble (boardFromArray tiles) j = clampExponent (default 0 (tiles !! j)).
Proof.
  intros Hj.
  destruct (encode_loop tiles (Nat.min (length tiles) kBoardTileCount))
    as [_ Hnib]; [unfold kBoardTileCount; lia|].
  change (for_loop _ 0 (encode_step tiles) 0) with (boardFromArray tiles)
    in Hnib.
  rewrite Hnib. unfold kBoardTileCount.
  destruct (decide (j < length tiles `min` 16)%nat) as [Hlt|Hge].
  - rewrite list_lookup_lookup_total_lt by lia. done.
  - rewrite (lookup_ge_None_2 tiles j) by lia. done.
Qed.

Lemma decode_step_eq board i tiles :
  decode_step board i tiles = <[ i := nibble board i ]> tiles.
Proof.
  unfold decode_step. fold (nibble board i).
  rewrite wrap_int_small; [done|].
  pose proof (nibble_range board i). unfold int_min, int_max.
  change (2 ^ 31) with 2147483648. lia.
Qed.

Lemma decode_loop board count (tiles : list Z) j :
  (count ≤ length tiles)%nat →
  for_loop count 0 (decode_step board) tiles !! j =
  if decide (j < count)%nat then Some (nibble board j) else tiles !! j.
Proof.
  induction count as [|count IH]; intros Hcount.
  - cbn [for_loop]. destruct (decide (j < 0)%nat); [lia|done].
  - rewrite for_loop_succ, Nat.add_0_l, decode_step_eq.
    assert (Hlen : length (for_loop count 0 (decode_step board) tiles)
                   = length tiles).
    { clear. induction count as [|count IH]; [done|].
      rewrite for_loop_succ. unfold decode_step at 1.
      now rewrite length_insert. }
    destruct (decide (count = j)) as [->|Hne].
    + rewrite list_lookup_insert_eq by lia.
      destruct (decide (j < S j)%nat); [done|lia].
    + rewrite list_lookup_insert_ne, IH by (done || lia).
      destruct (decide (j < count)%nat), (decide (j < S count)%nat);
        done || lia.
Qed.

Lemma arrayFromBoard_lookup board j :
  arrayFromBoard board !! j =
  if decide (j < 16)%nat then Some (nibble board j) else None.
Proof.
  change (arrayFromBoard board)
    with (for_loop 16 0 (decode_step board) (replicate 16 0)).
  rewrite decode_loop by (rewrite length_replicate; lia).
  destruct (decide (j < 16)%nat); [done|].
  apply lookup_replicate_None. lia.
Qed.

Lemma arrayFromBoard_length board : length (arrayFromBoard board) = 16%nat.
Proof.
  destruct (Nat.lt_trichotomy (length (arrayFromBoard board)) 16)
    as [Hlt|[Heq|Hgt]]; [|done|].
  - pose proof (arrayFromBoard_lookup board (length (arrayFromBoard board)))
      as Hl.
    rewrite lookup_ge_None_2 in Hl by lia.
    destruct (decide _); [done|lia].
  - pose proof (arrayFromBoard_lookup board 16) as Hl.
    rewrite (decide_False (P := (16 < 16)%nat)) in Hl by lia.
    apply lookup_ge_None_1 in Hl. lia.
Qed.

(** ** The board codec *)

Lemma pad16_lookup v j :
  (j < 16)%nat → pad16 v !! j = Some (default 0 (v !! j)).
Proof.
  intros Hj. unfold pad16. rewrite <- resize_spec.
  destruct (decide (j < length v)%nat) as [Hlt|Hge].
  - rewrite lookup_resize by done.
    now rewrite (list_lookup_lookup_total_lt v j).
  - rewrite lookup_resize_new by lia.
    now rewrite (lookup_ge_None_2 v j) by lia.
Qed.

Lemma pad16_length v : length (pad16 v) = 16%nat.
Proof. unfold pad16. rewrite <- resize_spec. apply length_resize. Qed.

(** Decoding an encoded board gives the clamped, padded input. *)
Lemma decode_encode v :
  arrayFromBoard (boardFromArray v) = clampExponent <$> pad16 v.
Proof.
  apply list_eq. intros j.
  rewrite arrayFromBoard_lookup, list_lookup_fmap.
  destruct (decide (j < 16)%nat) as [Hj|Hj].
  - now rewrite nibble_boardFromArray, pad16_lookup.
  - rewrite (lookup_ge_None_2 (pad16 v)); [done|].
    rewrite pad16_length. lia.
Qed.

(** Encoding a decoded board gives the board back. *)
Lemma encode_decode board :
  0 ≤ board < 2 ^ 64 → boardFromArray (arrayFromBoard board) = board.
Proof.
  intros Hb. apply board_ext; [apply boardFromArray_range|done|].
  intros j Hj. rewrite nibble_boardFromArray, arrayFromBoard_lookup by done.
  rewrite decide_True by done. cbn.
  apply clampExponent_id, nibble_range.
Qed.

(** Two inputs with the same clamped values in the first sixteen places
    encode to the same board. *)
Lemma boardFromArray_ext v w :
  (∀ j, (j < 16)%nat →
        clampExponent (default 0 (v !! j)) = clampExponent (default 0 (w !! j))) →
  boardFromArray v = boardFromArray w.
Proof.
  intros Hvw. apply board_ext; try apply boardFromArray_range.
  intros j Hj. rewrite !nibble_boardFromArray by done. now apply Hvw.
Qed.

Lemma boardFromArray_clamp v :
  boardFromArray v = boardFromArray (clampExponent <$> v).
Proof.
  apply boardFromArray_ext. intros j _. rewrite list_lookup_fmap.
  destruct (v !! j); cbn; [|done]. now rewrite clampExponent_idem.
Qed.

Lemma boardFromArray_pad16 v : boardFromArray v = boardFromArray (pad16 v).
Proof.
  apply boardFromArray_ext. intros j Hj. now rewrite pad16_lookup.
Qed.

Lemma boardFromArray_take v : boardFromArray v = boardFromArray (take 16 v).
Proof.
  apply boardFromArray_ext. intros j Hj. now rewrite lookup_take_lt.
Qed.

(** C1. Round trip: a sequence of sixteen values, each in [0,15], is
    returned unchanged by encoding it and decoding the result. *)
Theorem C1_decode_encode_roundtrip (v : list Z) :
  length v = 16%nat →
  Forall (fun x => 0 ≤ x ≤ 15) v →
  arrayFromBoard (boardFromArray v) = v.
Proof.
  intros Hlen Hall. rewrite decode_encode.
  unfold pad16. rewrite Hlen, Nat.sub_diag, app_nil_r.
  rewrite take_ge by lia.
  clear Hlen. induction Hall as [|x v Hx _ IH]; [done|].
  cbn. now rewrite clampExponent_id, IH.
Qed.

Lemma C1_decode_encode_roundtrip_witness :
  arrayFromBoard
    (boardFromArray [0; 1; 2; 3; 4; 5; 6; 7; 8; 9; 10; 11; 12; 13; 14; 15])
  = [0; 1; 2; 3; 4; 5; 6; 7; 8; 9; 10; 11; 12; 13; 14; 15].
Proof.
  apply C1_decode_encode_roundtrip; [reflexivity|].
  repeat constructor; lia.
Defined.

Lemma clampExponent_max_min value :
  clampExponent value = Z.max 0 (Z.min 15 value).
Proof.
  unfold clampExponent, kMaxExponent.
  destruct (Z.ltb_spec value 0); [lia|].
  destruct (Z.gtb_spec value 15); lia.
Qed.

(** C3. Every input value is clamped to [0,15] before it is packed: cell
    [j] of the board holds max(0, min(15, x)) for the [j]-th input [x], and
    encoding a sequence agrees with encoding the sequence of these clamped
    values.  [boardFromArray] is total, so no input makes it fail. *)
Theorem C3_boardFromArray_clamps (v : list Z) :
  boardFromArray v
  = boardFromArray ((fun x => Z.max 0 (Z.min 15 x)) <$> v) ∧
  ∀ j x, (j < 16)%nat → v !! j = Some x →
         nibble (boardFromArray v) j = Z.max 0 (Z.min 15 x).
Proof.
  split.
  - rewrite boardFromArray_clamp. f_equal.
    apply list_fmap_ext. intros _ x _. apply clampExponent_max_min.
  - intros j x Hj Hx.
    now rewrite nibble_boardFromArray, Hx, <- clampExponent_max_min.
Qed.

Lemma C3_boardFromArray_clamps_witness :
  boardFromArray [-3; 20; 7] = boardFromArray [0; 15; 7] ∧
  nibble (boardFromArray [-3; 20; 7]) 0 = 0 ∧
  nibble (boardFromArray [-3; 20; 7]) 1 = 15 ∧
  nibble (boardFromArray [-3; 20; 7]) 2 = 7.
Proof.
  destruct (C3_boardFromArray_clamps [-3; 20; 7]) as [Hboard Hcell].
  split; [exact Hboard|].
  split; [apply (Hcell 0%nat (-3)); [lia|reflexivity]|].
  split; [apply (Hcell 1%nat 20); [lia|reflexivity]|].
  apply (Hcell 2%nat 7); [lia|reflexivity].
Defined.

(** C4. Encoding is idempotent after one clamp: for every input [x],
    encoding the decoding of the encoding of [x] is the encoding of [x]. *)
Theorem C4_encode_decode_encode (x : list Z) :
  boardFromArray (arrayFromBoard (boardFromArray x)) = boardFromArray x.
Proof. apply encode_decode, boardFromArray_range. Qed.

(** C10. [boardFromArray] takes a sequence of any length: it encodes it as
    it encodes its first sixteen values completed with zeros; values past
    index 15 are ignored; and the cells past the end of a short input are
    empty. *)
Theorem C10_boardFromArray_any_length (v : list Z) :
  boardFromArray v
    = boardFromArray (take 16 v ++ replicate (16 - length v) 0) ∧
  boardFromArray v = boardFromArray (take 16 v) ∧
  drop (length v) (arrayFromBoard (boardFromArray v))
    = replicate (16 - length v) 0.
Proof.
  split; [apply boardFromArray_pad16|].
  split; [apply boardFromArray_take|].
  rewrite decode_encode. apply list_eq. intros i.
  rewrite lookup_drop, list_lookup_fmap.
  destruct (decide (length v + i < 16)%nat) as [Hlt|Hge].
  - rewrite pad16_lookup, (lookup_ge_None_2 v) by lia.
    now rewrite lookup_replicate_2 by lia.
  - rewrite (lookup_ge_None_2 (pad16 v)) by (rewrite pad16_length; lia).
    symmetry. apply lookup_replicate_None. lia.
Qed.

(** ** Guarded moves *)

(** C2. A move is reported valid exactly when its direction is one of
    0..3 and making it changes the board; for any other direction the move
    is reported invalid and [makeMove] hands the board back.  Both
    functions are total: no direction makes them fail. *)
Theorem C2_isValidMove_iff (sim : GameSimulator) (b d : Z) :
  (isValidMove sim b d = true ↔ 0 ≤ d ≤ 3 ∧ makeMove sim b d ≠ b) ∧
  (¬ 0 ≤ d ≤ 3 → isValidMove sim b d = false ∧ makeMove sim b d = b).
Proof.
  unfold isValidMove, makeMove.
  destruct (Z.ltb_spec d 0) as [Hneg|Hnonneg]; cbn.
  { split; [|done]. split; [done|lia]. }
  destruct (Z.gtb_spec d 3) as [Hbig|Hsmall]; cbn.
  { split; [|done]. split; [done|lia]. }
  split; [|lia].
  destruct (Z.eqb_spec b (make_move sim b d)) as [Heq|Hne]; cbn.
  - split; [done|]. intros [_ Hdiff]. now rewrite <- Heq in Hdiff.
  - split; [|done]. intros _. split; [lia|congruence].
Qed.

Lemma C2_isValidMove_iff_witness :
  let sim := {| make_move := fun board _ => Z.shiftr board 4 |} in
  isValidMove sim 0x21 7 = false ∧ makeMove sim 0x21 7 = 0x21.
Proof.
  intros sim. apply (C2_isValidMove_iff sim 0x21 7). lia.
Defined.

(** ** Name resolution *)

Lemma tolower_idem ch : tolower (tolower ch) = tolower ch.
Proof. destruct ch as [[] [] [] [] [] [] [] []]; reflexivity. Qed.

Lemma toLowerCopy_idem value :
  toLowerCopy (toLowerCopy value) = toLowerCopy value.
Proof.
  induction value as [|ch rest IH]; [done|].
  cbn. now rewrite tolower_idem, IH.
Qed.

(** Two names that differ only in letter case resolve alike. *)
Lemma resolveHeuristic_case s t :
  toLowerCopy s = toLowerCopy t → resolveHeuristic s = resolveHeuristic t.
Proof. unfold resolveHeuristic. now intros ->. Qed.

Example lowercase_sample :
  lowercase "Skewed_CORNER @AZ[ `az{ 09" = "skewed_corner @az[ `az{ 09"%string.
Proof. reflexivity. Qed.

Lemma tolower_lowercase_letter ch : tolower ch = lowercase_letter ch.
Proof. destruct ch as [[] [] [] [] [] [] [] []]; reflexivity. Qed.

Lemma toLowerCopy_lowercase value : toLowerCopy value = lowercase value.
Proof.
  induction value as [|ch rest IH]; [done|].
  cbn. now rewrite tolower_lowercase_letter, IH.
Qed.

(** C5. Name resolution ignores letter case: a name resolves as its
    lower-case form does.  A name whose lower-case form is none of the
    recognized identifiers resolves to the corner heuristic. *)
Theorem C5_resolveHeuristic_case_insensitive (s : string) :
  resolveHeuristic s = resolveHeuristic (lowercase s) ∧
  (lowercase s ∉ heuristic_keys →
   resolveHeuristic s = heuristics.corner_heuristic).
Proof.
  split.
  - apply resolveHeuristic_case.
    now rewrite <- toLowerCopy_lowercase, toLowerCopy_idem.
  - rewrite <- toLowerCopy_lowercase. intros Hnot. unfold resolveHeuristic.
    repeat match goal with
           | |- context [String.eqb ?a ?b] =>
               destruct (String.eqb_spec a b) as [Heq|_];
               [try (exfalso; apply Hnot; rewrite Heq;
                     apply list_elem_of_In; cbn; tauto)|]
           end; reflexivity.
Qed.

Lemma C5_resolveHeuristic_case_insensitive_witness :
  resolveHeuristic "Skewed_CORNER" = heuristics.skewed_corner_heuristic ∧
  resolveHeuristic "Bogus-Heuristic" = heuristics.corner_heuristic.
Proof.
  split.
  - destruct (C5_resolveHeuristic_case_insensitive "Skewed_CORNER")
      as [Hcase _].
    rewrite Hcase. reflexivity.
  - apply (C5_resolveHeuristic_case_insensitive "Bogus-Heuristic").
    intros Hin. apply list_elem_of_In in Hin. cbn in Hin.
    intuition discriminate.
Defined.

(** ** The strategy factory *)

Example float_0_001_rounded :
  float_0_001
  = SFdiv float_prec float_emax (S754_finite false 1 0)
          (S754_finite false 1000 0).
Proof. reflexivity. Qed.

Example double_0_0025_rounded :
  double_0_0025
  = SFdiv 53 1024 (S754_finite false 25 0) (S754_finite false 10000 0).
Proof. reflexivity. Qed.

Example float_of_double_minus_1 :
  float_of_double double_minus_1 = S754_finite true 8388608 (-23).
Proof. reflexivity. Qed.

(** A type whose lower-case form is none of the six keys [makeStrategy]
    compares against gives the expectimax-depth fallback. *)
Lemma makeStrategy_fallback type evaluator depth probability trials :
  toLowerCopy type ∉
    ["expectimax-depth"; "expectimax"; "expectimax-probability";
     "monte-carlo"; "random-trials"; "random"]%string →
  makeStrategy type evaluator depth probability trials
  = ExpectimaxDepthStrategy (if depth <=? 0 then 4 else depth) evaluator.
Proof.
  intros Hnot. unfold makeStrategy.
  repeat match goal with
         | |- context [String.eqb ?a ?b] =>
             destruct (String.eqb_spec a b) as [Heq|_];
             [exfalso; apply Hnot; rewrite Heq;
              apply list_elem_of_In; cbn; tauto|]
         end.
  reflexivity.
Qed.

Lemma int_mul_exact a b : int_min ≤ a * b ≤ int_max → int_mul a b = a * b.
Proof. apply wrap_int_small. Qed.

Lemma std_max_max a b : std_max a b = Z.max a b.
Proof. unfold std_max. destruct (Z.ltb_spec a b); lia. Qed.

(** C6. The wrapper built from the type "bogus-type", the heuristic
    "bogus-heuristic", depth 0 and probability -1 holds an expectimax-depth
    strategy of depth 4 on the corner heuristic; so does the factory called
    with these values, whatever the trial count. *)
Theorem C6_bogus_defaults (trials : Z) :
  strategy_ (Wrapper.new "bogus-type" "bogus-heuristic" 0 double_minus_1)
  = Some (ExpectimaxDepthStrategy 4 heuristics.corner_heuristic) ∧
  makeStrategy "bogus-type" (resolveHeuristic "bogus-heuristic") 0
               double_minus_1 trials
  = ExpectimaxDepthStrategy 4 heuristics.corner_heuristic.
Proof. split; reflexivity. Qed.

(** C7. For the monte-carlo type, in any letter case: a trial count ≤ 0 is
    replaced by max(128, depth * 128) wherever the [int] product of line 81
    is defined, that is, wherever [depth * 128] fits an [int]; depth 2 with
    trial count 0 gives 256 iterations; a positive trial count is used as
    given.  Where the product does not fit, from depth 2^24 on, the source
    overflows a signed [int] and nothing is stated. *)
Theorem C7_monte_carlo_trials (type : string) (evaluator : heuristic_t)
    (depth : Z) (probability : spec_float) (trials : Z) :
  toLowerCopy type = "monte-carlo"%string →
  (trials ≤ 0 → int_min ≤ depth * 128 ≤ int_max →
   makeStrategy type evaluator depth probability trials
   = MonteCarloPlayer (Z.max 128 (depth * 128))) ∧
  (0 < trials →
   makeStrategy type evaluator depth probability trials
   = MonteCarloPlayer trials) ∧
  makeStrategy type evaluator 2 probability 0 = MonteCarloPlayer 256.
Proof.
  intros Hkey. unfold makeStrategy. rewrite Hkey. cbn.
  split; [|split; [|reflexivity]].
  - intros Htrials Hfit.
    destruct (Z.gtb_spec trials 0); [lia|].
    now rewrite std_max_max, int_mul_exact.
  - intros Htrials. destruct (Z.gtb_spec trials 0); [done|lia].
Qed.

(** At depth 2^24 the product [depth * 128] is 2^31, one more than the
    largest [int], so the count max(128, depth * 128) is no [int]. *)
Lemma monte_carlo_overflow_depth :
  ¬ (int_min ≤ 16777216 * 128 ≤ int_max) ∧
  int_max < Z.max 128 (16777216 * 128).
Proof. unfold int_min, int_max. lia. Qed.

Lemma C7_monte_carlo_trials_witness :
  makeStrategy "Monte-Carlo" heuristics.corner_heuristic 3 double_0_0025 (-5)
  = MonteCarloPlayer 384 ∧
  makeStrategy "Monte-Carlo" heuristics.corner_heuristic 3 double_0_0025 7
  = MonteCarloPlayer 7.
Proof.
  split.
  - destruct (C7_monte_carlo_trials "Monte-Carlo" heuristics.corner_heuristic
                3 double_0_0025 (-5) eq_refl) as [Hdefault _].
    apply Hdefault; [lia|]. unfold int_min, int_max. lia.
  - destruct (C7_monte_carlo_trials "Monte-Carlo" heuristics.corner_heuristic
                3 double_0_0025 7 eq_refl) as (_ & Hgiven & _).
    apply Hgiven. lia.
Defined.

(** C8. For the random-trials type, in any letter case: a trial count ≤ 0
    gives 32 games per move and a positive one is used as given; a depth
    ≤ 0 gives branch depth 3 and a positive one is used as given; the width
    is 2 in every case.  So depth 0 with trial count 0 gives 32 games per
    move, branch depth 3 and width 2. *)
Theorem C8_random_trials_defaults (type : string) (evaluator : heuristic_t)
    (depth : Z) (probability : spec_float) (trials : Z) :
  toLowerCopy type = "random-trials"%string →
  (trials ≤ 0 → depth ≤ 0 →
   makeStrategy type evaluator depth probability trials
   = RandomTrialsStrategy 32 3 2) ∧
  (trials ≤ 0 → 0 < depth →
   makeStrategy type evaluator depth probability trials
   = RandomTrialsStrategy 32 depth 2) ∧
  (0 < trials → depth ≤ 0 →
   makeStrategy type evaluator depth probability trials
   = RandomTrialsStrategy trials 3 2) ∧
  (0 < trials → 0 < depth →
   makeStrategy type evaluator depth probability trials
   = RandomTrialsStrategy trials depth 2) ∧
  makeStrategy type evaluator 0 probability 0 = RandomTrialsStrategy 32 3 2.
Proof.
  intros Hkey. unfold makeStrategy. rewrite Hkey. cbn.
  destruct (Z.gtb_spec trials 0), (Z.gtb_spec depth 0);
    repeat split; intros; done || lia.
Qed.

Lemma C8_random_trials_defaults_witness :
  makeStrategy "Random-Trials" heuristics.score_heuristic 0 double_0_0025 0
  = RandomTrialsStrategy 32 3 2.
Proof.
  apply (C8_random_trials_defaults "Random-Trials" heuristics.score_heuristic
           0 double_0_0025 0 eq_refl).
Defined.

(** ** The wrapper *)

(** After [configure], [setTrials] gives the strategy that the configured
    type, heuristic, depth and probability give with the new trial count. *)
Lemma setTrials_configure type heuristic depth probability trials self :
  strategy_ (Wrapper.setTrials trials
               (Wrapper.configure type heuristic depth probability self))
  = Some (makeStrategy (toLowerCopy type)
                       (resolveHeuristic (toLowerCopy heuristic))
                       depth probability trials).
Proof. reflexivity. Qed.

Lemma ensureStrategy_setTrials trials self :
  Wrapper.ensureStrategy (Wrapper.setTrials trials self)
  = Wrapper.setTrials trials self.
Proof. reflexivity. Qed.

(** C9. [setTrials] stores the new trial count and rebuilds the strategy
    from the stored type, evaluator, depth and probability with that count;
    the stored type, evaluator, heuristic name, depth and probability are
    what they were. *)
Theorem C9_setTrials_frame (trials : Z) (self : StrategyWrapper) :
  let self' := Wrapper.setTrials trials self in
  trials_ self' = trials ∧
  strategy_ self'
  = Some (makeStrategy (strategy_type_ self) (evaluator_ self) (depth_ self)
                       (probability_ self) trials) ∧
  strategy_type_ self' = strategy_type_ self ∧
  evaluator_ self' = evaluator_ self ∧
  heuristic_name_ self' = heuristic_name_ self ∧
  depth_ self' = depth_ self ∧
  probability_ self' = probability_ self.
Proof. cbn. repeat split. Qed.

(** * Further properties *)

(** ** The board codec, continued *)

Lemma clampExponent_zero value : clampExponent value = 0 ↔ value ≤ 0.
Proof.
  unfold clampExponent, kMaxExponent.
  destruct (Z.ltb_spec value 0); [lia|].
  destruct (Z.gtb_spec value 15); lia.
Qed.

Lemma boardFromArray_normal v :
  boardFromArray v = boardFromArray (clampExponent <$> pad16 v).
Proof. now rewrite <- boardFromArray_clamp, <- boardFromArray_pad16. Qed.

(** X1. Round trip from the board side: every 64-bit board is returned
    unchanged by decoding it and encoding the result. *)
Theorem board_roundtrip (board : Z) :
  0 ≤ board < 2 ^ 64 → boardFromArray (arrayFromBoard board) = board.
Proof. apply encode_decode. Qed.

Lemma board_roundtrip_witness :
  boardFromArray (arrayFromBoard 0xFEDCBA9876543210) = 0xFEDCBA9876543210.
Proof.
  apply board_roundtrip. split; [lia|]. reflexivity.
Defined.

(** X2. Whatever the board, [arrayFromBoard] returns exactly sixteen
    values and each of them is in [0,15]. *)
Theorem arrayFromBoard_shape (board : Z) :
  length (arrayFromBoard board) = 16%nat ∧
  Forall (fun x => 0 ≤ x ≤ 15) (arrayFromBoard board).
Proof.
  split; [apply arrayFromBoard_length|].
  apply Forall_lookup. intros j x Hx.
  rewrite arrayFromBoard_lookup in Hx.
  destruct (decide (j < 16)%nat); [|done].
  injection Hx as <-. apply nibble_range.
Qed.

(** X3. The encoded board is the empty board exactly when none of the
    first sixteen input values is positive; the empty input is such an
    input. *)
Theorem boardFromArray_empty_iff (v : list Z) :
  boardFromArray v = 0 ↔ Forall (fun x => x ≤ 0) (take 16 v).
Proof.
  split.
  - intros Hzero. apply Forall_lookup. intros j x Hx.
    apply lookup_take_Some in Hx as [Hx Hj].
    apply clampExponent_zero.
    pose proof (nibble_boardFromArray v j Hj) as Hnib.
    now rewrite Hzero, nibble_0, Hx in Hnib.
  - intros Hall. apply board_ext; [apply boardFromArray_range|done|].
    intros j Hj. rewrite nibble_boardFromArray, nibble_0 by done.
    apply clampExponent_zero.
    destruct (v !! j) as [x|] eqn:Hx; [|done]. cbn.
    rewrite Forall_lookup in Hall. apply (Hall j).
    now rewrite lookup_take_lt.
Qed.

(** X4. Two inputs are encoded as the same board exactly when their first
    sixteen values, completed with zeros and clamped, are the same. *)
Theorem boardFromArray_eq_iff (v w : list Z) :
  boardFromArray v = boardFromArray w ↔
  clampExponent <$> pad16 v = clampExponent <$> pad16 w.
Proof.
  split.
  - intros Heq. now rewrite <- !decode_encode, Heq.
  - intros Heq.
    now rewrite (boardFromArray_normal v), (boardFromArray_normal w), Heq.
Qed.

(** X5. Replacing one value of the input replaces the matching cell of the
    decoded board by the clamped value and leaves every other cell as it
    was. *)
Theorem boardFromArray_insert (v : list Z) (j : nat) (x : Z) :
  (j < length v)%nat →
  arrayFromBoard (boardFromArray (<[j := x]> v))
  = <[j := clampExponent x]> (arrayFromBoard (boardFromArray v)).
Proof.
  intros Hj. apply list_eq. intros k.
  rewrite list_lookup_insert, !arrayFromBoard_lookup, arrayFromBoard_length.
  destruct (decide (k < 16)%nat) as [Hk|Hk].
  - rewrite !nibble_boardFromArray by done.
    destruct (decide (j = k ∧ (j < 16)%nat)) as [[-> _]|Hne].
    + now rewrite list_lookup_insert_eq.
    + rewrite list_lookup_insert_ne; [done|]. intros ->. now apply Hne.
  - destruct (decide (j = k ∧ (j < 16)%nat)) as [[-> ?]|_]; done.
Qed.

Lemma boardFromArray_insert_witness :
  arrayFromBoard (boardFromArray (<[1%nat := 99]> [1; 2; 3]))
  = <[1%nat := 15]> (arrayFromBoard (boardFromArray [1; 2; 3])).
Proof.
  apply (boardFromArray_insert [1; 2; 3] 1 99). cbn. lia.
Defined.

(** X6. [clampExponent] is max(0, min(15, value)), and it keeps the order
    of its arguments. *)
Theorem clampExponent_monotone (a b : Z) :
  clampExponent a = Z.max 0 (Z.min 15 a) ∧
  (a ≤ b → clampExponent a ≤ clampExponent b).
Proof.
  unfold clampExponent, kMaxExponent.
  destruct (Z.ltb_spec a 0), (Z.gtb_spec a 15),
    (Z.ltb_spec b 0), (Z.gtb_spec b 15); lia.
Qed.

Lemma clampExponent_monotone_witness :
  clampExponent (-7) ≤ clampExponent 40.
Proof.
  apply (clampExponent_monotone (-7) 40). lia.
Defined.

(** X7. Two different 64-bit boards never decode to the same array. *)
Theorem arrayFromBoard_inj (a b : Z) :
  0 ≤ a < 2 ^ 64 → 0 ≤ b < 2 ^ 64 →
  a ≠ b → arrayFromBoard a ≠ arrayFromBoard b.
Proof.
  intros Ha Hb Hne Heq. apply Hne.
  rewrite <- (encode_decode a), <- (encode_decode b) by done.
  now rewrite Heq.
Qed.

Lemma arrayFromBoard_inj_witness :
  arrayFromBoard 0x21 ≠ arrayFromBoard 0x12.
Proof.
  apply arrayFromBoard_inj; [split; (lia || reflexivity)..|lia].
Defined.

(** ** Moves, continued *)

(** X8. For every direction, in range or not, a move is reported invalid
    exactly when making it hands the board back. *)
Theorem isValidMove_false_iff (sim : GameSimulator) (b d : Z) :
  isValidMove sim b d = false ↔ makeMove sim b d = b.
Proof.
  unfold isValidMove, makeMove.
  destruct ((d <? 0) || (d >? 3)); [done|].
  destruct (Z.eqb_spec b (make_move sim b d)) as [Heq|Hne]; cbn.
  - split; [now intros _|done].
  - split; [done|]. intros Heq. now rewrite Heq in Hne.
Qed.

(** ** Largest tile *)

Lemma getMaxTile_eq get_max_tile board :
  getMaxTile get_max_tile board
  = if get_max_tile board <=? 0 then 0
    else 2 ^ Z.min (get_max_tile board) 15.
Proof.
  unfold getMaxTile, std_min, int_shl, kMaxExponent.
  destruct (Z.leb_spec (get_max_tile board) 0) as [|Hpos]; [done|].
  destruct (Z.ltb_spec 15 (get_max_tile board)) as [Hbig|Hsmall].
  - now rewrite Z.min_r by lia.
  - rewrite Z.min_l, Z.shiftl_1_l by lia. apply wrap_int_small.
    assert (0 < 2 ^ get_max_tile board) by (apply Z.pow_pos_nonneg; lia).
    assert (2 ^ get_max_tile board ≤ 2 ^ 15)
      by (apply Z.pow_le_mono_r; lia).
    unfold int_min, int_max. change (2 ^ 31) with 2147483648.
    change (2 ^ 15) with 32768 in *. lia.
Qed.

(** X9. The reported largest tile is 0 when the largest exponent is not
    positive, 2^e for an exponent e from 1 to 15, and 32768 for every
    exponent above 15. *)
Theorem getMaxTile_values (get_max_tile : Z → Z) (board : Z) :
  (get_max_tile board ≤ 0 → getMaxTile get_max_tile board = 0) ∧
  (1 ≤ get_max_tile board ≤ 15 →
   getMaxTile get_max_tile board = 2 ^ get_max_tile board) ∧
  (15 < get_max_tile board → getMaxTile get_max_tile board = 32768).
Proof.
  rewrite getMaxTile_eq.
  destruct (Z.leb_spec (get_max_tile board) 0); repeat split; intros;
    try lia; try done.
  - now rewrite Z.min_l by lia.
  - now rewrite Z.min_r by lia.
Qed.

Lemma getMaxTile_values_witness :
  getMaxTile (fun board => Z.land board 15) 0x3B = 2048 ∧
  getMaxTile (fun board => board) 0x3B = 32768 ∧
  getMaxTile (fun board => - board) 0x3B = 0.
Proof.
  split; [|split].
  - destruct (getMaxTile_values (fun board => Z.land board 15) 0x3B)
      as (_ & Hpow & _).
    apply Hpow. change (Z.land 0x3B 15) with 11. lia.
  - destruct (getMaxTile_values (fun board => board) 0x3B) as (_ & _ & Hcap).
    apply Hcap. lia.
  - destruct (getMaxTile_values (fun board => - board) 0x3B) as (Hzero & _).
    apply Hzero. lia.
Defined.

(** X10. The reported largest tile never decreases when the largest
    exponent grows, and it is always between 0 and 32768. *)
Theorem getMaxTile_monotone (get_max_tile : Z → Z) (b1 b2 : Z) :
  0 ≤ getMaxTile get_max_tile b1 ≤ 32768 ∧
  (get_max_tile b1 ≤ get_max_tile b2 →
   getMaxTile get_max_tile b1 ≤ getMaxTile get_max_tile b2).
Proof.
  rewrite !getMaxTile_eq.
  assert (Hpow : ∀ e, 0 < e → 0 < 2 ^ Z.min e 15 ≤ 32768).
  { intros e He. split; [apply Z.pow_pos_nonneg; lia|].
    change 32768 with (2 ^ 15). apply Z.pow_le_mono_r; lia. }
  destruct (Z.leb_spec (get_max_tile b1) 0) as [Hle1|Hpos1].
  - split; [lia|]. intros _.
    destruct (Z.leb_spec (get_max_tile b2) 0) as [|Hpos2]; [lia|].
    specialize (Hpow _ Hpos2). lia.
  - split; [specialize (Hpow _ Hpos1); lia|]. intros Hle.
    destruct (Z.leb_spec (get_max_tile b2) 0); [lia|].
    apply Z.pow_le_mono_r; lia.
Qed.

Lemma getMaxTile_monotone_witness :
  getMaxTile (fun board => Z.land board 15) 0x13
  ≤ getMaxTile (fun board => Z.land board 15) 0x1B.
Proof.
  apply (getMaxTile_monotone (fun board => Z.land board 15) 0x13 0x1B).
  apply Z.leb_le. reflexivity.
Defined.

(** ** Lower case *)

Lemma tolower_fixed ch : tolower ch = ch ↔ isupper ch = false.
Proof.
  destruct ch as [[] [] [] [] [] [] [] []]; vm_compute;
    split; intros H; reflexivity || discriminate H.
Qed.

Lemma isupper_tolower ch : isupper (tolower ch) = false.
Proof. destruct ch as [[] [] [] [] [] [] [] []]; reflexivity. Qed.

(** X11. [toLowerCopy] keeps the length of the string and goes through
    concatenation. *)
Theorem toLowerCopy_append (s t : string) :
  String.length (toLowerCopy s) = String.length s ∧
  toLowerCopy (String.append s t)
  = String.append (toLowerCopy s) (toLowerCopy t).
Proof.
  induction s as [|ch rest [IHlen IHapp]]; [done|].
  split.
  - cbn [toLowerCopy String.length]. now rewrite IHlen.
  - change (String.append (String ch rest) t)
      with (String ch (String.append rest t)).
    cbn [toLowerCopy]. rewrite IHapp. reflexivity.
Qed.

(** X12. The result of [toLowerCopy] has no upper case letter, and the
    strings [toLowerCopy] leaves unchanged are exactly those without one. *)
Theorem toLowerCopy_fixed_iff (s : string) :
  has_upper (toLowerCopy s) = false ∧
  (toLowerCopy s = s ↔ has_upper s = false).
Proof.
  induction s as [|ch rest [IHup IHfix]]; [done|].
  cbn. rewrite isupper_tolower, IHup. split; [done|].
  rewrite orb_false_iff, <- IHfix, <- tolower_fixed.
  split; [intros [= -> ->]|intros [-> ->]]; done.
Qed.

(** ** Heuristic names, continued *)

(** X13. Each evaluator other than the corner one is reached by its own
    names only: a name resolves to it exactly when the lower-cased name is
    one of them. *)
Theorem resolveHeuristic_names (s : string) :
  (resolveHeuristic s = heuristics.score_heuristic
   ↔ toLowerCopy s = "score"%string) ∧
  (resolveHeuristic s = heuristics.merge_heuristic
   ↔ toLowerCopy s = "merge"%string) ∧
  (resolveHeuristic s = heuristics.strict_wall_heuristic
   ↔ toLowerCopy s = "wall"%string ∨ toLowerCopy s = "strict_wall"%string) ∧
  (resolveHeuristic s = heuristics.wall_gap_heuristic
   ↔ toLowerCopy s = "wall_gap"%string) ∧
  (resolveHeuristic s = heuristics.full_wall_heuristic
   ↔ toLowerCopy s = "full_wall"%string) ∧
  (resolveHeuristic s = heuristics.skewed_corner_heuristic
   ↔ toLowerCopy s = "skewed_corner"%string) ∧
  (resolveHeuristic s = heuristics.monotonicity_heuristic
   ↔ toLowerCopy s = "monotonicity"%string).
Proof.
  unfold resolveHeuristic. generalize (toLowerCopy s) as key. intros key.
  repeat match goal with
         | |- context [String.eqb key ?b] =>
             destruct (String.eqb_spec key b) as [->|?]
         end; cbn;
    repeat split; intros;
    repeat match goal with H : _ ∨ _ |- _ => destruct H end;
    try discriminate; try congruence; auto.
Qed.

(** ** The strategy factory, continued *)

Lemma makeStrategy_case type type' evaluator depth probability trials :
  toLowerCopy type = toLowerCopy type' →
  makeStrategy type evaluator depth probability trials
  = makeStrategy type' evaluator depth probability trials.
Proof. unfold makeStrategy. now intros ->. Qed.

(** X14. The type is read without regard to letter case: a type and its
    lower-case form give the same strategy, and so do two types with the
    same lower-case form. *)
Theorem makeStrategy_case_insensitive (type : string)
    (evaluator : heuristic_t) (depth : Z) (probability : spec_float)
    (trials : Z) :
  makeStrategy (lowercase type) evaluator depth probability trials
  = makeStrategy type evaluator depth probability trials ∧
  ∀ type', lowercase type = lowercase type' →
           makeStrategy type evaluator depth probability trials
           = makeStrategy type' evaluator depth probability trials.
Proof.
  split.
  - apply makeStrategy_case.
    now rewrite <- toLowerCopy_lowercase, toLowerCopy_idem.
  - intros type' Hsame. apply makeStrategy_case.
    now rewrite !toLowerCopy_lowercase.
Qed.

Lemma makeStrategy_case_insensitive_witness :
  makeStrategy "RANDOM" heuristics.merge_heuristic 5 double_0_0025 9
  = makeStrategy "random" heuristics.merge_heuristic 5 double_0_0025 9 ∧
  makeStrategy "RANDOM-trials" heuristics.merge_heuristic 5 double_0_0025 9
  = makeStrategy "Random-Trials" heuristics.merge_heuristic 5 double_0_0025 9.
Proof.
  split.
  - apply (makeStrategy_case_insensitive "RANDOM"). reflexivity.
  - apply (makeStrategy_case_insensitive "RANDOM-trials"). reflexivity.
Defined.

(** X15. The class of the strategy depends on the lower-cased type alone:
    "expectimax-probability", "monte-carlo", "random-trials" and "random"
    give their own class and every other type, recognized or not, gives
    expectimax-depth; the evaluator and the numbers never change it. *)
Theorem makeStrategy_kind (type : string) (evaluator : heuristic_t)
    (depth : Z) (probability : spec_float) (trials : Z) :
  kind_of (makeStrategy type evaluator depth probability trials)
  = kind_of_key (toLowerCopy type).
Proof.
  unfold makeStrategy, kind_of_key.
  generalize (toLowerCopy type) as key. intros key.
  repeat match goal with
         | |- context [String.eqb key ?b] =>
             destruct (String.eqb_spec key b) as [->|?]; cbn [orb kind_of]
         end;
    try reflexivity; repeat case_decide; done || congruence.
Qed.

(** X16. A type that is none of the six recognized ones is treated in
    every respect as "expectimax-depth". *)
Theorem makeStrategy_unrecognized (type : string) (evaluator : heuristic_t)
    (depth : Z) (probability : spec_float) (trials : Z) :
  toLowerCopy type ∉
    ["expectimax-depth"; "expectimax"; "expectimax-probability";
     "monte-carlo"; "random-trials"; "random"]%string →
  makeStrategy type evaluator depth probability trials
  = makeStrategy "expectimax-depth" evaluator depth probability trials.
Proof. intros Hnot. now rewrite makeStrategy_fallback. Qed.

Lemma makeStrategy_unrecognized_witness :
  makeStrategy "Minimax" heuristics.score_heuristic 6 double_0_0025 10
  = makeStrategy "expectimax-depth" heuristics.score_heuristic 6
                 double_0_0025 10.
Proof.
  apply makeStrategy_unrecognized.
  intros Hin. apply list_elem_of_In in Hin. cbn in Hin.
  intuition discriminate.
Defined.

Lemma binary_round_negative m e :
  float_gt (binary_round float_prec float_emax true m e) float_0 = false.
Proof.
  unfold binary_round, binary_round_aux.
  destruct (shl_align _ _ _) as [mz ez].
  destruct (shr_fexp _ _ _ _ _) as [mrs' e'].
  destruct (shr_fexp _ _ _ _ _) as [mrs'' e''].
  destruct (shr_m mrs''); [reflexivity| |reflexivity].
  destruct (_ <=? _); reflexivity.
Qed.

(** X17. A probability that is not greater than zero (zero of either
    sign, a negative number, minus infinity or a NaN) gives the
    expectimax-probability strategy the threshold 0.001f. *)
Theorem makeStrategy_probability_default (type : string)
    (evaluator : heuristic_t) (depth : Z) (probability : spec_float)
    (trials : Z) :
  toLowerCopy type = "expectimax-probability"%string →
  SFltb (S754_zero false) probability = false →
  makeStrategy type evaluator depth probability trials
  = ExpectimaxProbabilityStrategy float_0_001 evaluator.
Proof.
  intros Hkey Hnot. unfold makeStrategy. rewrite Hkey. cbn [String.eqb orb].
  change (("expectimax-probability" =? "expectimax-depth")%string) with false.
  change (("expectimax-probability" =? "expectimax")%string) with false.
  change (("expectimax-probability" =? "expectimax-probability")%string)
    with true.
  cbn [orb].
  assert (float_gt (float_of_double probability) float_0 = false) as ->;
    [|reflexivity].
  destruct probability as [s|[]| |[] m e]; try reflexivity; try discriminate.
  apply binary_round_negative.
Qed.

Lemma makeStrategy_probability_default_witness :
  makeStrategy "Expectimax-Probability" heuristics.corner_heuristic 3
               double_minus_1 0
  = ExpectimaxProbabilityStrategy float_0_001 heuristics.corner_heuristic ∧
  makeStrategy "Expectimax-Probability" heuristics.corner_heuristic 3
               S754_nan 0
  = ExpectimaxProbabilityStrategy float_0_001 heuristics.corner_heuristic.
Proof.
  split; apply makeStrategy_probability_default; reflexivity.
Defined.

(** X18. Whatever the type, the evaluator and the probability, and for
    every [int] trial count and [int] depth whose product with 128 is an
    [int], the strategy built has positive parameters only: depth,
    iterations, games per move and branch depth are positive [int]s, the
    threshold is greater than zero, the width is 2. *)
Theorem makeStrategy_positive_parameters (type : string)
    (evaluator : heuristic_t) (depth : Z) (probability : spec_float)
    (trials : Z) :
  int_min ≤ depth ≤ int_max →
  int_min ≤ depth * 128 ≤ int_max →
  int_min ≤ trials ≤ int_max →
  positive_parameters
    (makeStrategy type evaluator depth probability trials).
Proof.
  intros Hdepth Hfit Htrials.
  assert (Hdefault : 0 < (if depth <=? 0 then 4 else depth) ≤ int_max).
  { unfold int_max in *. change (2 ^ 31) with 2147483648 in *.
    destruct (Z.leb_spec depth 0); lia. }
  unfold makeStrategy.
  generalize (toLowerCopy type) as key. intros key.
  repeat match goal with
         | |- context [String.eqb key ?b] =>
             destruct (String.eqb_spec key b) as [->|?];
             cbn [orb positive_parameters]
         end; try done.
  - destruct (float_gt (float_of_double probability) float_0) eqn:Hgt;
      cbn [negb]; [exact Hgt|reflexivity].
  - rewrite std_max_max, int_mul_exact by done.
    unfold int_max in *. change (2 ^ 31) with 2147483648 in *.
    destruct (Z.gtb_spec trials 0); lia.
  - unfold int_max in *. change (2 ^ 31) with 2147483648 in *.
    destruct (Z.gtb_spec trials 0), (Z.gtb_spec depth 0); lia.
Qed.

Lemma makeStrategy_positive_parameters_witness :
  positive_parameters
    (makeStrategy "monte-carlo" heuristics.corner_heuristic 5
                  double_minus_1 (-3)).
Proof.
  apply makeStrategy_positive_parameters;
    unfold int_min, int_max; split; (lia || reflexivity).
Defined.

(** A positive [double] too small for a [float] is cast to zero, so it too
    gives the threshold 0.001f; here 1e-50. *)
Example makeStrategy_probability_underflow :
  makeStrategy "expectimax-probability" heuristics.corner_heuristic 3
               (S754_finite false 8424983333484575 (-219)) 0
  = ExpectimaxProbabilityStrategy float_0_001 heuristics.corner_heuristic.
Proof. reflexivity. Qed.

(** ** The wrapper, continued *)

Lemma configure_coherent type heuristic depth probability self :
  coherent (Wrapper.configure type heuristic depth probability self).
Proof.
  unfold coherent. cbn. rewrite !toLowerCopy_idem. repeat split.
Qed.

(** X19. The members of a wrapper agree with one another after the
    constructor and after [configure], whatever the wrapper was before,
    and [setTrials] keeps them in agreement: the strategy held is always
    the one the factory builds from the stored type, evaluator, depth,
    probability and trial count. *)
Theorem wrapper_coherent (type heuristic : string) (depth : Z)
    (probability : spec_float) (trials : Z) (self : StrategyWrapper) :
  coherent (Wrapper.new type heuristic depth probability) ∧
  coherent (Wrapper.configure type heuristic depth probability self) ∧
  (coherent self → coherent (Wrapper.setTrials trials self)).
Proof.
  split; [apply configure_coherent|].
  split; [apply configure_coherent|].
  intros (_ & Heval & Htype & Hname). unfold coherent. cbn. done.
Qed.

Lemma wrapper_coherent_witness :
  coherent
    (Wrapper.setTrials 64
       (Wrapper.new "Monte-Carlo" "Score" 3 double_0_0025)).
Proof.
  apply (wrapper_coherent "Monte-Carlo" "Score" 3 double_0_0025 64
           (Wrapper.new "Monte-Carlo" "Score" 3 double_0_0025)).
  apply configure_coherent.
Defined.

(** X20. On a wrapper whose members agree, [ensureStrategy] changes
    nothing: the strategy is not rebuilt before a move is picked. *)
Theorem ensureStrategy_coherent (self : StrategyWrapper) :
  coherent self → Wrapper.ensureStrategy self = self.
Proof.
  intros (Hstrategy & _). unfold Wrapper.ensureStrategy.
  now rewrite Hstrategy.
Qed.

Lemma ensureStrategy_coherent_witness :
  Wrapper.ensureStrategy (Wrapper.new "random" "wall" 0 double_0_0025)
  = Wrapper.new "random" "wall" 0 double_0_0025.
Proof.
  apply ensureStrategy_coherent, configure_coherent.
Defined.

(** X21. A newly constructed wrapper has the trial count 256, which the
    constructor's depth does not change: for the monte-carlo type it holds
    a player of 256 iterations at every depth, and for the random-trials
    type a strategy of 256 games per move. *)
Theorem new_trials_default (type heuristic : string) (depth : Z)
    (probability : spec_float) :
  trials_ (Wrapper.new type heuristic depth probability) = 256 ∧
  (toLowerCopy type = "monte-carlo"%string →
   strategy_ (Wrapper.new type heuristic depth probability)
   = Some (MonteCarloPlayer 256)) ∧
  (toLowerCopy type = "random-trials"%string →
   strategy_ (Wrapper.new type heuristic depth probability)
   = Some (RandomTrialsStrategy 256 (if depth >? 0 then depth else 3) 2)).
Proof.
  split; [reflexivity|].
  split; intros Hkey; cbn; unfold makeStrategy;
    rewrite !toLowerCopy_idem, Hkey; reflexivity.
Qed.

Lemma new_trials_default_witness :
  strategy_ (Wrapper.new "MONTE-CARLO" "corner" 8 double_0_0025)
  = Some (MonteCarloPlayer 256).
Proof.
  apply (new_trials_default "MONTE-CARLO" "corner" 8 double_0_0025).
  reflexivity.
Defined.

(** X22. [configure] keeps the trial count, and the state of a wrapper is
    fixed by its last [configure] and its last [setTrials] in either
    order: the two commute, and a second call of either one overrides the
    first. *)
Theorem configure_setTrials_commute (type heuristic type' heuristic' : string)
    (depth depth' : Z) (probability probability' : spec_float)
    (trials trials' : Z) (self : StrategyWrapper) :
  trials_ (Wrapper.configure type heuristic depth probability self)
  = trials_ self ∧
  Wrapper.setTrials trials
    (Wrapper.configure type heuristic depth probability self)
  = Wrapper.configure type heuristic depth probability
      (Wrapper.setTrials trials self) ∧
  Wrapper.configure type heuristic depth probability
    (Wrapper.configure type' heuristic' depth' probability' self)
  = Wrapper.configure type heuristic depth probability self ∧
  Wrapper.setTrials trials (Wrapper.setTrials trials' self)
  = Wrapper.setTrials trials self.
Proof. repeat split. Qed.

(** X23. Constructing a wrapper gives the state that [configure] with the
    same arguments followed by [setTrials 256] gives from any wrapper. *)
Theorem new_as_configure (type heuristic : string) (depth : Z)
    (probability : spec_float) (self : StrategyWrapper) :
  Wrapper.new type heuristic depth probability
  = Wrapper.setTrials 256
      (Wrapper.configure type heuristic depth probability self).
Proof.
  unfold Wrapper.new, Wrapper.configure, Wrapper.setTrials. cbn.
  now rewrite !toLowerCopy_idem.
Qed.
